(** * Instrumented allocator and Result contract of c_data_structures

    A shallow embedding of [src/memory.c], [include/memory.h] and
    [include/error.h] (with [result_description] and the two predicates of
    the error module), followed by the properties of the statistics
    aggregate and of the error-propagation helpers; then the integer
    comparisons, the capacity arithmetic and [swap_bytes] of the
    utilities module, with their properties.

    C objects are modelled as follows.
    - [usize] (size_t) is a [Z] in [0, 2^usize_bits); every [+=], [++] and
      [*] on it is written with its wrap-around ([wrap]).
    - [ptr] (void pointer) is an address, a [Z]; [NULL] is [0].
    - The C library allocator is outside the repository: it is an interface
      ([Platform]) giving [malloc], [calloc], [realloc] and [free] as
      functions on an abstract heap state, so that the code is verified
      for every allocator behaviour (success or refusal of any request).
    - The file-level [static Memory_Stats stats] is the [stats] component
      of the [World] threaded through every call.
    - A macro that may [return] from the enclosing function yields a
      [Flow]: [Return r] or [Continue a]. *)

From Stdlib Require Import ZArith String List Lia Bool.
Import ListNotations.

Open Scope string_scope.
Open Scope Z_scope.

(** ** types.h *)

Module Types.

Definition usize : Type := Z.
Definition ptr : Type := Z.
Definition NULL : ptr := 0.

(** What the C library and the target give: the width of [size_t] and the
    four heap routines that memory.c wraps. *)
Class Platform : Type := {
  usize_bits : positive;
  Heap : Type;
  malloc : usize -> Heap -> ptr * Heap;
  calloc : usize -> usize -> Heap -> ptr * Heap;
  realloc : ptr -> usize -> Heap -> ptr * Heap;
  free : ptr -> Heap -> Heap
}.

Definition usize_modulus `{Platform} : Z := 2 ^ Zpos usize_bits.

(** Unsigned arithmetic on [usize] is reduced modulo [2^usize_bits]. *)
Definition wrap `{Platform} (x : Z) : usize := x mod usize_modulus.

Definition in_usize `{Platform} (x : Z) : Prop := 0 <= x < usize_modulus.

End Types.

Import Types.

(** ** error.h and the error module *)

Module Error.

(** [Result_Code] is a C enumeration: an integer, of which fourteen values
    are named. *)
Definition Result_Code : Type := Z.

Definition DS_SUCCESS : Result_Code := 0.
Definition DS_ERROR_INVALID_ARGUMENT : Result_Code := 1.
Definition DS_ERROR_MEMORY_ALLOCATION : Result_Code := 2.
Definition DS_ERROR_INDEX_OUT_OF_BOUNDS : Result_Code := 3.
Definition DS_ERROR_EMPTY_CONTAINER : Result_Code := 4.
Definition DS_ERROR_FULL_CONTAINER : Result_Code := 5.
Definition DS_ERROR_NOT_FOUND : Result_Code := 6.
Definition DS_ERROR_DUPLICATE : Result_Code := 7.
Definition DS_ERROR_OVERFLOW : Result_Code := 8.
Definition DS_ERROR_UNDERFLOW : Result_Code := 9.
Definition DS_ERROR_NULL_POINTER : Result_Code := 10.
Definition DS_ERROR_CORRUPTED_DATA : Result_Code := 11.
Definition DS_ERROR_NOT_IMPLEMENTED : Result_Code := 12.
Definition DS_ERROR_UNKNOWN : Result_Code := 13.

(** The enumerators in declaration order. *)
Definition enumerators : list Result_Code :=
  [ DS_SUCCESS; DS_ERROR_INVALID_ARGUMENT; DS_ERROR_MEMORY_ALLOCATION;
    DS_ERROR_INDEX_OUT_OF_BOUNDS; DS_ERROR_EMPTY_CONTAINER;
    DS_ERROR_FULL_CONTAINER; DS_ERROR_NOT_FOUND; DS_ERROR_DUPLICATE;
    DS_ERROR_OVERFLOW; DS_ERROR_UNDERFLOW; DS_ERROR_NULL_POINTER;
    DS_ERROR_CORRUPTED_DATA; DS_ERROR_NOT_IMPLEMENTED; DS_ERROR_UNKNOWN ].

Record Result : Type := {
  code : Result_Code;
  message : string;
  file : string;
  line : Z
}.

(** [RESULT_SUCCESS] and [RESULT_ERROR(code, msg)]; [__FILE__] and
    [__LINE__] of the place of expansion are the last two arguments. *)
Definition RESULT_SUCCESS (file_ : string) (line_ : Z) : Result :=
  {| code := DS_SUCCESS; message := "Success."; file := file_; line := line_ |}.

Definition RESULT_ERROR (code_ : Result_Code) (msg : string)
  (file_ : string) (line_ : Z) : Result :=
  {| code := code_; message := msg; file := file_; line := line_ |}.

(** [result_description]: a [switch] over the code, thirteen [case]s and a
    [default]. *)
Definition result_description (c : Result_Code) : string :=
  if c =? DS_SUCCESS then "Success."
  else if c =? DS_ERROR_INVALID_ARGUMENT then "Invalid argument."
  else if c =? DS_ERROR_MEMORY_ALLOCATION then "Memory allocation failed."
  else if c =? DS_ERROR_INDEX_OUT_OF_BOUNDS then "Index out of bounds."
  else if c =? DS_ERROR_EMPTY_CONTAINER then "Container is empty."
  else if c =? DS_ERROR_FULL_CONTAINER then "Container is full."
  else if c =? DS_ERROR_NOT_FOUND then "Element not found."
  else if c =? DS_ERROR_DUPLICATE then "Duplicate element."
  else if c =? DS_ERROR_OVERFLOW then "Overflow occurred."
  else if c =? DS_ERROR_UNDERFLOW then "Underflow occurred."
  else if c =? DS_ERROR_NULL_POINTER then "Null pointer."
  else if c =? DS_ERROR_CORRUPTED_DATA then "Data corrupted."
  else if c =? DS_ERROR_NOT_IMPLEMENTED then "Not implemented."
  else "Unknown error.".

Definition result_is_success (result : Result) : bool :=
  code result =? DS_SUCCESS.

Definition result_is_error (result : Result) : bool :=
  negb (code result =? DS_SUCCESS).

(** Control after a statement-like macro inside a function returning
    [Result]: the function has returned [r], or it goes on with a value. *)
Inductive Flow (A : Type) : Type :=
| Return (r : Result)
| Continue (a : A).

Arguments Return {A} r.
Arguments Continue {A} a.

(** The statements after the macro run only when control continues. *)
Definition and_then {A B : Type} (f : Flow A) (k : A -> Flow B) : Flow B :=
  match f with
  | Return r => Return r
  | Continue a => k a
  end.

(** What the enclosing function returns: the early [return], or the value
    of its closing [return] statement. *)
Definition returns (f : Flow Result) : Result :=
  match f with
  | Return r => r
  | Continue r => r
  end.

(** [CHECK_RESULT(expr)], error.h lines 114-120; [expr] has been
    evaluated to [_result]. *)
Definition CHECK_RESULT (_result : Result) : Flow unit :=
  if result_is_error _result then Return _result else Continue tt.

(** [DS_ASSERT(condition, message)], error.h lines 135-140. *)
Definition DS_ASSERT (condition : bool) (msg : string)
  (file_ : string) (line_ : Z) : Flow unit :=
  if negb condition
  then Return (RESULT_ERROR DS_ERROR_INVALID_ARGUMENT msg file_ line_)
  else Continue tt.

End Error.

Import Error.

(** ** memory.h and memory.c *)

Module Memory.

Record Memory_Stats : Type := {
  total_allocated : usize;
  total_freed : usize;
  current_usage : usize;
  peak_usage : usize;
  allocation_count : usize;
  free_count : usize
}.

(** [(Memory_Stats){0}] *)
Definition stats_zero : Memory_Stats :=
  {| total_allocated := 0; total_freed := 0; current_usage := 0;
     peak_usage := 0; allocation_count := 0; free_count := 0 |}.

(** Assignments to one field of the structure. *)
Definition set_total_allocated (v : usize) (s : Memory_Stats) : Memory_Stats :=
  {| total_allocated := v; total_freed := total_freed s;
     current_usage := current_usage s; peak_usage := peak_usage s;
     allocation_count := allocation_count s; free_count := free_count s |}.

Definition set_current_usage (v : usize) (s : Memory_Stats) : Memory_Stats :=
  {| total_allocated := total_allocated s; total_freed := total_freed s;
     current_usage := v; peak_usage := peak_usage s;
     allocation_count := allocation_count s; free_count := free_count s |}.

Definition set_peak_usage (v : usize) (s : Memory_Stats) : Memory_Stats :=
  {| total_allocated := total_allocated s; total_freed := total_freed s;
     current_usage := current_usage s; peak_usage := v;
     allocation_count := allocation_count s; free_count := free_count s |}.

Definition set_allocation_count (v : usize) (s : Memory_Stats) : Memory_Stats :=
  {| total_allocated := total_allocated s; total_freed := total_freed s;
     current_usage := current_usage s; peak_usage := peak_usage s;
     allocation_count := v; free_count := free_count s |}.

Definition set_free_count (v : usize) (s : Memory_Stats) : Memory_Stats :=
  {| total_allocated := total_allocated s; total_freed := total_freed s;
     current_usage := current_usage s; peak_usage := peak_usage s;
     allocation_count := allocation_count s; free_count := v |}.

Section Allocator.

Context `{P : Platform}.

(** The program state memory.c works on: the C library's heap and the
    file-level [stats]. *)
Record World : Type := {
  heap : Heap;
  stats : Memory_Stats
}.

Definition initial_world (h : Heap) : World :=
  {| heap := h; stats := stats_zero |}.

(** [ds_malloc], memory.c lines 29-46. *)
Definition ds_malloc (size : usize) (w : World) : ptr * World :=
  let (result, h) := malloc size (heap w) in
  if negb (result =? NULL) then
    let s := stats w in
    let s := set_total_allocated (wrap (total_allocated s + size)) s in
    let s := set_current_usage (wrap (current_usage s + size)) s in
    let s := set_allocation_count (wrap (allocation_count s + 1)) s in
    let s := if current_usage s >? peak_usage s
             then set_peak_usage (current_usage s) s
             else s in
    (result, {| heap := h; stats := s |})
  else (result, {| heap := h; stats := stats w |}).

(** [ds_calloc], memory.c lines 58-74. *)
Definition ds_calloc (count size : usize) (w : World) : ptr * World :=
  let total_size := wrap (count * size) in
  let (result, h) := calloc count size (heap w) in
  if negb (result =? NULL) then
    let s := stats w in
    let s := set_total_allocated (wrap (total_allocated s + total_size)) s in
    let s := set_current_usage (wrap (current_usage s + total_size)) s in
    let s := set_allocation_count (wrap (allocation_count s + 1)) s in
    let s := if current_usage s >? peak_usage s
             then set_peak_usage (current_usage s) s
             else s in
    (result, {| heap := h; stats := s |})
  else (result, {| heap := h; stats := stats w |}).

(** [ds_realloc], memory.c lines 87-98. *)
Definition ds_realloc (pointer : ptr) (new_size : usize) (w : World)
  : ptr * World :=
  let (result, h) := realloc pointer new_size (heap w) in
  if negb (result =? NULL) && (new_size >? 0) then
    let s := stats w in
    let s := set_total_allocated (wrap (total_allocated s + new_size)) s in
    let s := set_current_usage (wrap (current_usage s + new_size)) s in
    (result, {| heap := h; stats := s |})
  else (result, {| heap := h; stats := stats w |}).

(** [ds_free], memory.c lines 108-118. *)
Definition ds_free (pointer : ptr) (w : World) : World :=
  if negb (pointer =? NULL) then
    let h := free pointer (heap w) in
    let s := stats w in
    let s := set_free_count (wrap (free_count s + 1)) s in
    {| heap := h; stats := s |}
  else w.

(** [ds_alloc_array], memory.c lines 130-133. *)
Definition ds_alloc_array (count element_size : usize) (w : World)
  : ptr * World :=
  ds_calloc count element_size w.

(** [ds_realloc_array], memory.c lines 138-141. *)
Definition ds_realloc_array (array : ptr) (new_count element_size : usize)
  (w : World) : ptr * World :=
  ds_realloc array (wrap (new_count * element_size)) w.

(** [ds_get_memory_stats], memory.c line 194. *)
Definition ds_get_memory_stats (w : World) : Memory_Stats := stats w.

(** [ds_reset_memory_stats], memory.c line 201. *)
Definition ds_reset_memory_stats (w : World) : World :=
  {| heap := heap w; stats := stats_zero |}.

(** One call of the allocator's interface, with its arguments. *)
Inductive Call : Type :=
| Call_malloc (size : usize)
| Call_calloc (count size : usize)
| Call_realloc (pointer : ptr) (new_size : usize)
| Call_free (pointer : ptr)
| Call_reset.

Definition exec (c : Call) (w : World) : World :=
  match c with
  | Call_malloc size => snd (ds_malloc size w)
  | Call_calloc count size => snd (ds_calloc count size w)
  | Call_realloc pointer new_size => snd (ds_realloc pointer new_size w)
  | Call_free pointer => ds_free pointer w
  | Call_reset => ds_reset_memory_stats w
  end.

(** The pointer a call hands back; [None] for the two [void] functions. *)
Definition returned (c : Call) (w : World) : option ptr :=
  match c with
  | Call_malloc size => Some (fst (ds_malloc size w))
  | Call_calloc count size => Some (fst (ds_calloc count size w))
  | Call_realloc pointer new_size => Some (fst (ds_realloc pointer new_size w))
  | Call_free _ | Call_reset => None
  end.

(** States the program can be in after finitely many calls from [w0]. *)
Inductive reachable (w0 : World) : World -> Prop :=
| reach_start : reachable w0 w0
| reach_call (c : Call) (w : World) :
    reachable w0 w -> reachable w0 (exec c w).

Fixpoint run (cs : list Call) (w : World) : World :=
  match cs with
  | [] => w
  | c :: cs' => run cs' (exec c w)
  end.

(** The statistics that the block under [if(result)] of [ds_malloc] and
    [ds_calloc] leaves when it runs with [bytes] bytes (lemmas
    [ds_malloc_stats] and [ds_calloc_stats] relate it to the code). *)
Definition after_allocation (bytes : usize) (s : Memory_Stats) : Memory_Stats :=
  let cur := wrap (current_usage s + bytes) in
  {| total_allocated := wrap (total_allocated s + bytes);
     total_freed := total_freed s;
     current_usage := cur;
     peak_usage := if cur >? peak_usage s then cur else peak_usage s;
     allocation_count := wrap (allocation_count s + 1);
     free_count := free_count s |}.

(** [ALLOC(type)], memory.h line 133: [ds_malloc(sizeof(type))]. *)
Definition ALLOC (sizeof_type : usize) (w : World) : ptr * World :=
  ds_malloc sizeof_type w.

(** [CHECKED_ALLOC(ptr, type)], memory.h lines 154-161. [type] is the
    text of the macro argument (what [#type] stringifies) and
    [sizeof_type] its size; on [Continue] the value is what was assigned
    to [ptr]. *)
Definition CHECKED_ALLOC (type : string) (sizeof_type : usize)
  (file_ : string) (line_ : Z) (w : World) : Flow ptr * World :=
  let (p, w') := ALLOC sizeof_type w in
  if p =? NULL
  then (Return (RESULT_ERROR DS_ERROR_MEMORY_ALLOCATION
                  ("Failed to allocate " ++ type) file_ line_), w')
  else (Continue p, w').

End Allocator.

Arguments World {P}.

(** *** A concrete platform to run the code on

    A 64-bit target whose C library carves blocks out of one arena of
    [arena_limit] bytes and never reuses them: the heap state is the next
    free address. Requests that do not fit are refused with [NULL];
    [calloc] also refuses when the product does not fit. *)

Definition arena_limit : Z := 4096.

Definition arena_take (size : Z) (next : Z) : ptr * Z :=
  if (0 <=? size) && (next + size <=? arena_limit)
  then (next, next + Z.max size 1)
  else (NULL, next).

Definition arena : Platform := {|
  usize_bits := 64;
  Heap := Z;
  malloc := arena_take;
  calloc := fun count size => arena_take (count * size);
  realloc := fun _ new_size next =>
               if new_size =? 0 then (NULL, next) else arena_take new_size next;
  free := fun _ next => next
|}.

Definition arena_start : @World arena := @initial_world arena 16.

End Memory.

Import Memory.

(** ** Reading a sequence of calls

    What a test harness would tally beside the code while it issues the
    calls: which requests were granted, how many bytes they asked for, and
    the usage figure after each call. *)

Module Tally.

Section Tallies.

Context `{P : Platform}.

Definition is_reset (c : Call) : bool :=
  match c with Call_reset => true | _ => false end.

Definition is_realloc (c : Call) : bool :=
  match c with Call_realloc _ _ => true | _ => false end.

Definition no_reset (cs : list Call) : bool :=
  forallb (fun c => negb (is_reset c)) cs.

Definition no_realloc (cs : list Call) : bool :=
  forallb (fun c => negb (is_realloc c)) cs.

(** The call handed back a block. *)
Definition granted (c : Call) (w : World) : bool :=
  match returned c w with
  | Some p => negb (p =? NULL)
  | None => false
  end.

(** 1 for a granted [ds_malloc] or [ds_calloc], 0 for anything else. *)
Definition allocation_of (c : Call) (w : World) : Z :=
  match c with
  | Call_malloc _ | Call_calloc _ _ => if granted c w then 1 else 0
  | _ => 0
  end.

(** 1 for a [ds_free] of a non-null pointer. *)
Definition release_of (c : Call) : Z :=
  match c with
  | Call_free pointer => if pointer =? NULL then 0 else 1
  | _ => 0
  end.

(** The byte count of a granted request, as the callee computes it. *)
Definition bytes_of (c : Call) (w : World) : Z :=
  if granted c w then
    match c with
    | Call_malloc size => size
    | Call_calloc count size => wrap (count * size)
    | Call_realloc _ new_size => if new_size >? 0 then new_size else 0
    | _ => 0
    end
  else 0.

(** Sum of [f] over the calls, each taken in the state it runs in. *)
Fixpoint tally (f : Call -> World -> Z) (cs : list Call) (w : World) : Z :=
  match cs with
  | [] => 0
  | c :: cs' => f c w + tally f cs' (exec c w)
  end.

(** [current_usage] after each call, oldest first. *)
Fixpoint usage_history (cs : list Call) (w : World) : list usize :=
  match cs with
  | [] => []
  | c :: cs' =>
      current_usage (stats (exec c w)) :: usage_history cs' (exec c w)
  end.

End Tallies.

(** A run on the arena: two granted allocations, a granted resize of the
    null pointer, a refused allocation, a release and a release of
    [NULL]. *)
Definition sample_calls : list Call :=
  [ Call_malloc 100; Call_realloc NULL 50; Call_calloc 4 8;
    Call_malloc 5000; Call_free 16; Call_free NULL ].

End Tally.

Import Tally.

(** ** utils.c *)

Module Utils.

(** [compare_int]; [a] and [b] are the two [int]s pointed to. *)
Definition compare_int (a b : Z) : Z :=
  Z.b2z (a >? b) - Z.b2z (a <? b).

(** [compare_char]; [a] and [b] are the two [char]s pointed to. *)
Definition compare_char (a b : Z) : Z :=
  Z.b2z (a >? b) - Z.b2z (a <? b).

Section Capacity.

Context `{P : Platform}.

(** [next_power_of_two]. [lp64] tells whether [__LP64__] is defined, that
    is whether the shift by 32 is compiled in. *)
Definition next_power_of_two (lp64 : bool) (n : usize) : usize :=
  if n =? 0 then 1
  else
    let n := wrap (n - 1) in
    let n := Z.lor n (Z.shiftr n 1) in
    let n := Z.lor n (Z.shiftr n 2) in
    let n := Z.lor n (Z.shiftr n 4) in
    let n := Z.lor n (Z.shiftr n 8) in
    let n := Z.lor n (Z.shiftr n 16) in
    let n := if lp64 then Z.lor n (Z.shiftr n 32) else n in
    wrap (n + 1).

(** [is_power_of_two]. *)
Definition is_power_of_two (n : usize) : bool :=
  negb (n =? 0) && (Z.land n (wrap (n - 1)) =? 0).

(** [calculate_growth]. *)
Definition calculate_growth (current min_growth : usize) : usize :=
  if current =? 0 then (if min_growth >? 1 then min_growth else 1)
  else
    let new_capacity := wrap (current * 2) in
    let new_capacity :=
      if new_capacity <? wrap (current + min_growth)
      then wrap (current + min_growth)
      else new_capacity in
    new_capacity.

End Capacity.

(** Byte-addressed memory, for the functions that work through pointers. *)
Definition Bytes : Type := ptr -> Byte.byte.

(** [p[0] = v] *)
Definition store (p : ptr) (v : Byte.byte) (m : Bytes) : Bytes :=
  fun q => if q =? p then v else m q.

(** The loop of [swap_bytes] from index [i], with [steps] iterations to
    go. *)
Fixpoint swap_bytes_from (a b : ptr) (i : usize) (steps : nat) (m : Bytes)
  : Bytes :=
  match steps with
  | O => m
  | S steps' =>
      let temp := m (a + i) in
      let m := store (a + i) (m (b + i)) m in
      let m := store (b + i) temp m in
      swap_bytes_from a b (i + 1) steps' m
  end.

(** [swap_bytes]. *)
Definition swap_bytes (a b : ptr) (size : usize) (m : Bytes) : Bytes :=
  swap_bytes_from a b 0 (Z.to_nat size) m.

(** A memory holding 1, 2 at addresses 100, 101 and 3, 4 at 200, 201. *)
Definition sample_bytes : Bytes :=
  fun q =>
    if q =? 100 then Byte.x01 else if q =? 101 then Byte.x02
    else if q =? 200 then Byte.x03 else if q =? 201 then Byte.x04
    else Byte.x00.

End Utils.

Import Utils.

(** * Properties *)

(** ** Arithmetic on [usize] *)

Section UsizeFacts.

Context `{P : Platform}.

Lemma usize_modulus_ge_2 : 2 <= usize_modulus.
Proof.
  unfold usize_modulus.
  change 2 with (2 ^ 1) at 1.
  apply Z.pow_le_mono_r; lia.
Qed.

Lemma wrap_small (x : Z) : in_usize x -> wrap x = x.
Proof. unfold in_usize, wrap. intros Hx. now apply Z.mod_small. Qed.

Lemma wrap_in_usize (x : Z) : in_usize (wrap x).
Proof.
  unfold in_usize, wrap. apply Z.mod_pos_bound.
  pose proof usize_modulus_ge_2. lia.
Qed.

Lemma wrap_one : wrap 1 = 1.
Proof. apply wrap_small. pose proof usize_modulus_ge_2. unfold in_usize. lia. Qed.

Lemma wrap_zero : wrap 0 = 0.
Proof. unfold wrap. apply Z.mod_0_l. pose proof usize_modulus_ge_2. lia. Qed.

End UsizeFacts.

(** ** What each call does to the statistics *)

Section StatsEffects.

Context `{P : Platform}.

(** The test [if(result)] of the source, as a case split. *)
Lemma pointer_cases (p : ptr) :
  (p = NULL /\ (p =? NULL) = true) \/ (p <> NULL /\ (p =? NULL) = false).
Proof. destruct (Z.eqb_spec p NULL); [left | right]; split; trivial. Qed.

Lemma ds_malloc_stats (size : usize) (w : World) :
  stats (snd (ds_malloc size w)) =
  if fst (ds_malloc size w) =? NULL then stats w
  else after_allocation size (stats w).
Proof.
  unfold ds_malloc, after_allocation.
  destruct (malloc size (heap w)) as [result h].
  destruct (pointer_cases result) as [[_ E] | [_ E]]; rewrite E; cbn;
    rewrite ?E; trivial.
  destruct (_ >? _); reflexivity.
Qed.

Lemma ds_calloc_stats (count size : usize) (w : World) :
  stats (snd (ds_calloc count size w)) =
  if fst (ds_calloc count size w) =? NULL then stats w
  else after_allocation (wrap (count * size)) (stats w).
Proof.
  unfold ds_calloc, after_allocation.
  destruct (calloc count size (heap w)) as [result h].
  destruct (pointer_cases result) as [[_ E] | [_ E]]; rewrite E; cbn;
    rewrite ?E; trivial.
  destruct (_ >? _); reflexivity.
Qed.

Lemma ds_realloc_stats (pointer : ptr) (new_size : usize) (w : World) :
  stats (snd (ds_realloc pointer new_size w)) =
  if negb (fst (ds_realloc pointer new_size w) =? NULL) && (new_size >? 0)
  then set_current_usage (wrap (current_usage (stats w) + new_size))
         (set_total_allocated (wrap (total_allocated (stats w) + new_size))
            (stats w))
  else stats w.
Proof.
  unfold ds_realloc.
  destruct (realloc pointer new_size (heap w)) as [result h].
  destruct (negb (result =? NULL) && (new_size >? 0)) eqn:E; cbn; rewrite E;
    reflexivity.
Qed.

Lemma ds_realloc_success_stats (pointer : ptr) (new_size : usize) (w : World) :
  fst (ds_realloc pointer new_size w) <> NULL ->
  0 < new_size ->
  stats (snd (ds_realloc pointer new_size w)) =
  set_current_usage (wrap (current_usage (stats w) + new_size))
    (set_total_allocated (wrap (total_allocated (stats w) + new_size))
       (stats w)).
Proof.
  intros Hok Hpos.
  rewrite ds_realloc_stats.
  destruct (pointer_cases (fst (ds_realloc pointer new_size w)))
    as [[E _] | [_ E]]; [contradiction |].
  rewrite E.
  replace (new_size >? 0) with true by (symmetry; apply Z.gtb_lt; lia).
  reflexivity.
Qed.

Lemma ds_free_stats (pointer : ptr) (w : World) :
  stats (ds_free pointer w) =
  if pointer =? NULL then stats w
  else set_free_count (wrap (free_count (stats w) + 1)) (stats w).
Proof.
  unfold ds_free.
  destruct (pointer_cases pointer) as [[_ E] | [_ E]]; rewrite E; reflexivity.
Qed.

(** After a successful [ds_malloc] or [ds_calloc] the peak covers the
    current usage, whatever the statistics were before. *)
Lemma after_allocation_peak (bytes : usize) (s : Memory_Stats) :
  current_usage (after_allocation bytes s) <=
  peak_usage (after_allocation bytes s).
Proof.
  unfold after_allocation; cbn.
  destruct (Z.gtb_spec (wrap (current_usage s + bytes)) (peak_usage s)); lia.
Qed.

Lemma after_allocation_peak_is_max (bytes : usize) (s : Memory_Stats) :
  peak_usage (after_allocation bytes s) =
  Z.max (peak_usage s) (current_usage (after_allocation bytes s)).
Proof.
  unfold after_allocation; cbn.
  destruct (Z.gtb_spec (wrap (current_usage s + bytes)) (peak_usage s)); lia.
Qed.

(** [ds_realloc] never writes [peak_usage]. *)
Lemma ds_realloc_peak_unchanged (pointer : ptr) (new_size : usize) (w : World) :
  peak_usage (stats (snd (ds_realloc pointer new_size w))) =
  peak_usage (stats w).
Proof.
  rewrite ds_realloc_stats.
  destruct (negb _ && _); reflexivity.
Qed.

End StatsEffects.

(** ** The statistics aggregate *)

Section StatsClaims.

Context `{P : Platform}.

(** C2. A successful [ds_realloc] with [new_size > 0], for any input
    pointer (null or not), adds [new_size] to [total_allocated] and to
    [current_usage] in [usize] arithmetic; nothing is subtracted for the
    old block, and the four other fields keep their values. *)
Theorem ds_realloc_adds_new_size (pointer : ptr) (new_size : usize) (w : World) :
  fst (ds_realloc pointer new_size w) <> NULL ->
  0 < new_size ->
  let s := stats w in
  let s' := stats (snd (ds_realloc pointer new_size w)) in
  total_allocated s' = wrap (total_allocated s + new_size) /\
  current_usage s' = wrap (current_usage s + new_size) /\
  total_freed s' = total_freed s /\
  peak_usage s' = peak_usage s /\
  allocation_count s' = allocation_count s /\
  free_count s' = free_count s.
Proof.
  intros Hok Hpos s s'. subst s s'.
  rewrite (ds_realloc_success_stats pointer new_size w Hok Hpos).
  cbn. repeat split.
Qed.

(** When the sums fit in [usize] the two figures grow by [new_size] as
    integers. *)
Corollary ds_realloc_exact_sums
  (pointer : ptr) (new_size : usize) (w : World) :
  fst (ds_realloc pointer new_size w) <> NULL ->
  0 < new_size ->
  in_usize (total_allocated (stats w) + new_size) ->
  in_usize (current_usage (stats w) + new_size) ->
  let s' := stats (snd (ds_realloc pointer new_size w)) in
  total_allocated s' = total_allocated (stats w) + new_size /\
  current_usage s' = current_usage (stats w) + new_size.
Proof.
  intros Hok Hpos Ht Hc s'. subst s'.
  rewrite (ds_realloc_success_stats pointer new_size w Hok Hpos).
  cbn. now rewrite !wrap_small.
Qed.

(** C3. [ds_free] on the null pointer leaves the whole state as it was; on
    any other pointer it increments [free_count] by one (in [usize]
    arithmetic) and leaves the five other fields as they were. *)
Theorem ds_free_counts_only (pointer : ptr) (w : World) :
  (pointer = NULL -> ds_free pointer w = w) /\
  (pointer <> NULL ->
   let s := stats w in
   let s' := stats (ds_free pointer w) in
   free_count s' = wrap (free_count s + 1) /\
   total_allocated s' = total_allocated s /\
   total_freed s' = total_freed s /\
   current_usage s' = current_usage s /\
   peak_usage s' = peak_usage s /\
   allocation_count s' = allocation_count s).
Proof.
  split.
  - intros ->. reflexivity.
  - intros Hp s s'. subst s s'.
    rewrite ds_free_stats.
    destruct (pointer_cases pointer) as [[E _] | [_ E]]; [contradiction |].
    rewrite E. cbn. repeat split.
Qed.

(** C4. When the C library refuses the request, so that [ds_malloc] or
    [ds_calloc] returns [NULL], the statistics after the call are the
    statistics before it. *)
Theorem failed_allocation_keeps_stats (size count element : usize) (w : World) :
  (fst (ds_malloc size w) = NULL ->
   stats (snd (ds_malloc size w)) = stats w) /\
  (fst (ds_calloc count element w) = NULL ->
   stats (snd (ds_calloc count element w)) = stats w).
Proof.
  split; intros Hnull.
  - rewrite ds_malloc_stats, Hnull. reflexivity.
  - rewrite ds_calloc_stats, Hnull. reflexivity.
Qed.

(** C5. From the all-zero statistics, one successful [ds_malloc n] leaves
    [total_allocated], [current_usage] and [peak_usage] equal to [n] and
    [allocation_count] equal to 1 (and the two release figures at 0). *)
Theorem first_ds_malloc_stats (n : usize) (h : Heap) :
  in_usize n ->
  fst (ds_malloc n (initial_world h)) <> NULL ->
  stats (snd (ds_malloc n (initial_world h))) =
  {| total_allocated := n; total_freed := 0; current_usage := n;
     peak_usage := n; allocation_count := 1; free_count := 0 |}.
Proof.
  intros Hn Hok.
  rewrite ds_malloc_stats.
  destruct (pointer_cases (fst (ds_malloc n (initial_world h))))
    as [[E _] | [_ E]]; [contradiction |].
  rewrite E. unfold after_allocation, initial_world, stats_zero; cbn.
  rewrite wrap_one, (wrap_small n Hn).
  destruct (Z.gtb_spec n 0) as [Hgt | Hle]; [reflexivity |].
  unfold in_usize in Hn. replace n with 0 by lia. reflexivity.
Qed.

(** C6. [ds_alloc_array] is [ds_calloc] on the same count and element
    size, and [ds_realloc_array] is [ds_realloc] on the product
    [new_count * element_size] reduced modulo [2^usize_bits]: same
    returned pointer, same heap, same statistics, and no test on the
    product. *)
Theorem array_helpers_delegate
  (array : ptr) (count new_count element_size : usize) (w : World) :
  ds_alloc_array count element_size w = ds_calloc count element_size w /\
  ds_realloc_array array new_count element_size w =
  ds_realloc array ((new_count * element_size) mod 2 ^ Zpos usize_bits) w.
Proof. split; reflexivity. Qed.

(** The ledger invariant behind C10. *)
Lemma exec_keeps_ledger (c : Call) (w : World) :
  total_freed (stats w) = 0 ->
  current_usage (stats w) = total_allocated (stats w) ->
  total_freed (stats (exec c w)) = 0 /\
  current_usage (stats (exec c w)) = total_allocated (stats (exec c w)).
Proof.
  intros Hf Hc.
  destruct c as [size | count size | pointer new_size | pointer |]; cbn [exec].
  - rewrite ds_malloc_stats. destruct (_ =? _); cbn; [tauto |].
    rewrite Hc. tauto.
  - rewrite ds_calloc_stats. destruct (_ =? _); cbn; [tauto |].
    rewrite Hc. tauto.
  - rewrite ds_realloc_stats. destruct (negb _ && _); cbn; [| tauto].
    rewrite Hc. tauto.
  - rewrite ds_free_stats. destruct (_ =? _); cbn; tauto.
  - cbn. tauto.
Qed.

(** C10. In every state reached from the all-zero statistics by calls of
    [ds_malloc], [ds_calloc], [ds_realloc], [ds_free] and
    [ds_reset_memory_stats], [total_freed] is 0 and [current_usage]
    equals [total_allocated], hence also
    [total_allocated - total_freed]. *)
Theorem reachable_ledger (h0 : Heap) (w : World) :
  reachable (initial_world h0) w ->
  total_freed (stats w) = 0 /\
  current_usage (stats w) = total_allocated (stats w) /\
  current_usage (stats w) = total_allocated (stats w) - total_freed (stats w).
Proof.
  intros Hreach.
  assert (total_freed (stats w) = 0 /\
          current_usage (stats w) = total_allocated (stats w)) as [Hf Hc].
  { induction Hreach as [| c w Hreach [IHf IHc]].
    - split; reflexivity.
    - now apply exec_keeps_ledger. }
  repeat split; trivial. lia.
Qed.

Lemma reachable_run (cs : list Call) (w0 w : World) :
  reachable w0 w -> reachable w0 (run cs w).
Proof.
  revert w. induction cs as [| c cs IH]; intros w Hw; cbn.
  - exact Hw.
  - apply IH. now constructor.
Qed.

(** *** The peak figure

    [ds_malloc] and [ds_calloc] compare the usage with the peak after
    adding to it; [ds_realloc] adds to the usage and stops there. *)

Lemma successful_ds_malloc_peak (size : usize) (w : World) :
  fst (ds_malloc size w) <> NULL ->
  let s' := stats (snd (ds_malloc size w)) in
  current_usage s' <= peak_usage s' /\
  peak_usage s' = Z.max (peak_usage (stats w)) (current_usage s').
Proof.
  intros Hok s'. subst s'. rewrite ds_malloc_stats.
  destruct (pointer_cases (fst (ds_malloc size w)))
    as [[E _] | [_ E]]; [contradiction |].
  rewrite E. split.
  - apply after_allocation_peak.
  - apply after_allocation_peak_is_max.
Qed.

Lemma successful_ds_calloc_peak (count size : usize) (w : World) :
  fst (ds_calloc count size w) <> NULL ->
  let s' := stats (snd (ds_calloc count size w)) in
  current_usage s' <= peak_usage s' /\
  peak_usage s' = Z.max (peak_usage (stats w)) (current_usage s').
Proof.
  intros Hok s'. subst s'. rewrite ds_calloc_stats.
  destruct (pointer_cases (fst (ds_calloc count size w)))
    as [[E _] | [_ E]]; [contradiction |].
  rewrite E. split.
  - apply after_allocation_peak.
  - apply after_allocation_peak_is_max.
Qed.

(** Short of a reset, no call lowers the peak. *)
Lemma exec_peak_monotone (c : Call) (w : World) :
  c <> Call_reset ->
  peak_usage (stats w) <= peak_usage (stats (exec c w)).
Proof.
  intros Hc.
  destruct c as [size | count size | pointer new_size | pointer |];
    cbn [exec]; [| | | | contradiction].
  - rewrite ds_malloc_stats. destruct (_ =? _); [lia |].
    rewrite after_allocation_peak_is_max. lia.
  - rewrite ds_calloc_stats. destruct (_ =? _); [lia |].
    rewrite after_allocation_peak_is_max. lia.
  - rewrite ds_realloc_peak_unchanged. lia.
  - rewrite ds_free_stats. destruct (_ =? _); cbn; lia.
Qed.

(** A successful [ds_realloc] from a state whose usage had reached the
    peak leaves the peak strictly below the usage (unless the sum wraps). *)
Lemma ds_realloc_outruns_peak (pointer : ptr) (new_size : usize) (w : World) :
  fst (ds_realloc pointer new_size w) <> NULL ->
  0 < new_size ->
  peak_usage (stats w) <= current_usage (stats w) ->
  in_usize (current_usage (stats w) + new_size) ->
  let s' := stats (snd (ds_realloc pointer new_size w)) in
  peak_usage s' < current_usage s'.
Proof.
  intros Hok Hpos Hpeak Hfit s'. subst s'.
  rewrite (ds_realloc_success_stats pointer new_size w Hok Hpos). cbn.
  rewrite (wrap_small _ Hfit). lia.
Qed.

End StatsClaims.

(** ** The statistics on a concrete run *)

Section ArenaRuns.

(** The end-to-end scenario: 100 bytes, 50 more, release of the first
    block, reset. *)
Example scenario_two_allocations :
  stats (run [Call_malloc 100; Call_malloc 50] arena_start) =
  {| total_allocated := 150; total_freed := 0; current_usage := 150;
     peak_usage := 150; allocation_count := 2; free_count := 0 |}.
Proof. reflexivity. Qed.

Example scenario_release_and_reset :
  stats (run [Call_malloc 100; Call_malloc 50; Call_free 16] arena_start) =
  {| total_allocated := 150; total_freed := 0; current_usage := 150;
     peak_usage := 150; allocation_count := 2; free_count := 1 |} /\
  stats (run [Call_malloc 100; Call_malloc 50; Call_free 16; Call_reset]
           arena_start) = stats_zero.
Proof. split; reflexivity. Qed.

(** Growing a block of 100 bytes to 200: the usage figure goes to 300 and
    the peak stays at 100. *)
Example resize_after_allocation :
  stats (run [Call_malloc 100; Call_realloc 16 200] arena_start) =
  {| total_allocated := 300; total_freed := 0; current_usage := 300;
     peak_usage := 100; allocation_count := 1; free_count := 0 |}.
Proof. reflexivity. Qed.

(** [new_count * element_size] is [2^64 + 8] here; the request that
    reaches [realloc] is for 8 bytes, and 8 is what the statistics record. *)
Example ds_realloc_array_wraps :
  @ds_realloc_array arena NULL (2 ^ 61 + 1) 8 arena_start =
  @ds_realloc arena NULL 8 arena_start /\
  total_allocated
    (stats (snd (@ds_realloc_array arena NULL (2 ^ 61 + 1) 8 arena_start))) = 8.
Proof. split; reflexivity. Qed.

(** C1. The code at the failing input: from the all-zero statistics,
    [ds_realloc(NULL, 10)] succeeds, the state is reachable, and it has
    [current_usage = 10] with [peak_usage = 0]; the peak is below the
    usage and is not the maximum usage seen so far. *)
Theorem ds_realloc_peak_below_current :
  let call := @ds_realloc arena NULL 10 arena_start in
  fst call <> NULL /\
  reachable arena_start (snd call) /\
  current_usage (stats (snd call)) = 10 /\
  peak_usage (stats (snd call)) = 0 /\
  peak_usage (stats (snd call)) < current_usage (stats (snd call)).
Proof.
  cbv zeta. split; [| split].
  - vm_compute. discriminate.
  - apply (reach_call arena_start (Call_realloc NULL 10)). constructor.
  - vm_compute. repeat split.
Qed.

Lemma ds_realloc_adds_new_size_witness :
  let s := stats arena_start in
  let s' := stats (snd (@ds_realloc arena NULL 10 arena_start)) in
  total_allocated s' = @wrap arena (total_allocated s + 10) /\
  current_usage s' = @wrap arena (current_usage s + 10) /\
  total_freed s' = total_freed s /\
  peak_usage s' = peak_usage s /\
  allocation_count s' = allocation_count s /\
  free_count s' = free_count s.
Proof.
  apply (@ds_realloc_adds_new_size arena NULL 10 arena_start).
  - vm_compute. discriminate.
  - lia.
Defined.

Lemma ds_free_counts_only_witness :
  @ds_free arena NULL arena_start = arena_start /\
  free_count (stats (@ds_free arena 16 arena_start)) = 1 /\
  current_usage (stats (@ds_free arena 16 arena_start)) = 0.
Proof.
  split.
  - apply (proj1 (@ds_free_counts_only arena NULL arena_start)). reflexivity.
  - destruct (proj2 (@ds_free_counts_only arena 16 arena_start))
      as (Hfree & _ & _ & Hcur & _).
    + discriminate.
    + split; [exact Hfree | exact Hcur].
Defined.

Lemma failed_allocation_keeps_stats_witness :
  stats (snd (@ds_malloc arena 5000 arena_start)) = stats arena_start /\
  stats (snd (@ds_calloc arena 1000 8 arena_start)) = stats arena_start.
Proof.
  split.
  - apply (proj1 (@failed_allocation_keeps_stats arena 5000 1000 8 arena_start)).
    reflexivity.
  - apply (proj2 (@failed_allocation_keeps_stats arena 5000 1000 8 arena_start)).
    reflexivity.
Defined.

Lemma first_ds_malloc_stats_witness :
  stats (snd (@ds_malloc arena 100 (@initial_world arena 16))) =
  {| total_allocated := 100; total_freed := 0; current_usage := 100;
     peak_usage := 100; allocation_count := 1; free_count := 0 |}.
Proof.
  apply (@first_ds_malloc_stats arena 100 16).
  - unfold in_usize. split; [lia | reflexivity].
  - vm_compute. discriminate.
Defined.

Lemma reachable_ledger_witness :
  let w := run [Call_malloc 100; Call_realloc 16 200; Call_free 16] arena_start in
  total_freed (stats w) = 0 /\
  current_usage (stats w) = total_allocated (stats w) /\
  current_usage (stats w) = total_allocated (stats w) - total_freed (stats w).
Proof.
  apply (@reachable_ledger arena 16).
  apply (reach_call _ (Call_free 16)).
  apply (reach_call _ (Call_realloc 16 200)).
  apply (reach_call _ (Call_malloc 100)).
  apply reach_start.
Defined.

End ArenaRuns.

(** ** The Result contract *)

Section ResultClaims.

Context `{P : Platform}.

(** C7. When [malloc] refuses the request made by [CHECKED_ALLOC], the
    enclosing function returns an outcome with code
    [DS_ERROR_MEMORY_ALLOCATION] whose message is "Failed to allocate "
    followed by the text of the type, located at the place of the macro;
    no pointer is delivered and the statistics keep their values. *)
Theorem CHECKED_ALLOC_refused
  (type : string) (sizeof_type : usize) (file_ : string) (line_ : Z)
  (w : World) :
  fst (malloc sizeof_type (heap w)) = NULL ->
  let out := CHECKED_ALLOC type sizeof_type file_ line_ w in
  fst out =
    Return {| code := DS_ERROR_MEMORY_ALLOCATION;
              message := "Failed to allocate " ++ type;
              file := file_; line := line_ |} /\
  stats (snd out) = stats w.
Proof.
  intros Hrefused. cbv zeta.
  unfold CHECKED_ALLOC, ALLOC, ds_malloc.
  destruct (malloc sizeof_type (heap w)) as [result h].
  cbn in Hrefused. subst result. cbn. split; reflexivity.
Qed.

(** The other branch: a granted request delivers the pointer. *)
Lemma CHECKED_ALLOC_granted
  (type : string) (sizeof_type : usize) (file_ : string) (line_ : Z)
  (w : World) :
  fst (malloc sizeof_type (heap w)) <> NULL ->
  fst (CHECKED_ALLOC type sizeof_type file_ line_ w) =
  Continue (fst (malloc sizeof_type (heap w))).
Proof.
  intros Hgranted.
  unfold CHECKED_ALLOC, ALLOC, ds_malloc.
  destruct (malloc sizeof_type (heap w)) as [result h].
  cbn in Hgranted |- *.
  destruct (pointer_cases result) as [[E _] | [_ E]]; [contradiction |].
  rewrite E. cbn. rewrite E. reflexivity.
Qed.

(** [result_is_success] and [result_is_error] are complements. *)
Lemma result_is_error_negb (r : Result) :
  result_is_error r = negb (result_is_success r).
Proof. reflexivity. Qed.

(** C8. If the outcome [r] of the sub-call is an error, [CHECK_RESULT]
    returns [r] itself from the enclosing function, whatever the rest of
    that function is: same code, message, file and line. If [r] is a
    success, control goes on with the rest of the function. *)
Theorem CHECK_RESULT_propagates (r : Result) (rest : unit -> Flow Result) :
  (result_is_error r = true ->
   CHECK_RESULT r = Return r /\
   returns (and_then (CHECK_RESULT r) rest) = r) /\
  (result_is_success r = true ->
   CHECK_RESULT r = Continue tt /\
   and_then (CHECK_RESULT r) rest = rest tt).
Proof.
  split; intros Hr.
  - unfold CHECK_RESULT. rewrite Hr. split; reflexivity.
  - unfold CHECK_RESULT. rewrite result_is_error_negb, Hr. split; reflexivity.
Qed.

(** C9. [result_description] gives each of the fourteen enumerators its
    fixed text, never the empty string, and gives "Unknown error." for
    [DS_ERROR_UNKNOWN] and for every code that is not an enumerator. *)
Theorem result_description_total :
  map result_description enumerators =
    [ "Success."; "Invalid argument."; "Memory allocation failed.";
      "Index out of bounds."; "Container is empty."; "Container is full.";
      "Element not found."; "Duplicate element."; "Overflow occurred.";
      "Underflow occurred."; "Null pointer."; "Data corrupted.";
      "Not implemented."; "Unknown error." ] /\
  length enumerators = 14%nat /\
  (forall c : Result_Code, result_description c <> EmptyString) /\
  (forall c : Result_Code,
     ~ In c enumerators -> result_description c = "Unknown error.").
Proof.
  split; [reflexivity |]. split; [reflexivity |]. split; intros c.
  - unfold result_description.
    repeat (destruct (_ =? _); [discriminate |]). discriminate.
  - intros Hout. unfold result_description.
    repeat match goal with
           | |- context [c =? ?k] =>
               destruct (Z.eqb_spec c k) as [E | _];
               [exfalso; apply Hout; rewrite E; unfold enumerators; cbn [In];
                repeat (first [left; reflexivity | right]) |]
           end.
    reflexivity.
Qed.

End ResultClaims.

Section ResultRuns.

Lemma CHECKED_ALLOC_refused_witness :
  let out := @CHECKED_ALLOC arena "Node" 5000 "list.c" 42 arena_start in
  fst out =
    Return {| code := DS_ERROR_MEMORY_ALLOCATION;
              message := "Failed to allocate Node";
              file := "list.c"; line := 42 |} /\
  stats (snd out) = stats arena_start.
Proof.
  apply (@CHECKED_ALLOC_refused arena "Node" 5000 "list.c" 42 arena_start).
  reflexivity.
Defined.

Lemma CHECK_RESULT_propagates_witness :
  let failure := RESULT_ERROR DS_ERROR_NOT_FOUND "no such key" "map.c" 7 in
  let success := RESULT_SUCCESS "map.c" 9 in
  let rest := fun _ : unit => Continue (RESULT_SUCCESS "map.c" 12) in
  returns (and_then (CHECK_RESULT failure) rest) = failure /\
  and_then (CHECK_RESULT success) rest = rest tt.
Proof.
  cbv zeta. split.
  - apply (proj1 (CHECK_RESULT_propagates
                    (RESULT_ERROR DS_ERROR_NOT_FOUND "no such key" "map.c" 7)
                    (fun _ => Continue (RESULT_SUCCESS "map.c" 12)))).
    reflexivity.
  - apply (proj2 (CHECK_RESULT_propagates (RESULT_SUCCESS "map.c" 9)
                    (fun _ => Continue (RESULT_SUCCESS "map.c" 12)))).
    reflexivity.
Defined.

Lemma result_description_total_witness :
  result_description 99 = "Unknown error." /\
  result_description (-1) = "Unknown error.".
Proof.
  destruct result_description_total as (_ & _ & _ & Hout).
  split; apply Hout; cbn; intros Hin;
    repeat (destruct Hin as [Hin | Hin]; [discriminate Hin |]); exact Hin.
Defined.

End ResultRuns.

(** ** The statistics over a sequence of calls *)

Section StatsTraces.

Context `{P : Platform}.

Lemma wrap_add_wrap_l (a b : Z) : wrap (wrap a + b) = wrap (a + b).
Proof. unfold wrap. apply Zplus_mod_idemp_l. Qed.

Lemma wrap_add_zero (a : Z) : in_usize a -> a = wrap (a + 0).
Proof. intros Ha. now rewrite Z.add_0_r, wrap_small. Qed.

Lemma no_reset_cons (c : Call) (cs : list Call) :
  no_reset (c :: cs) = true -> is_reset c = false /\ no_reset cs = true.
Proof.
  unfold no_reset. cbn [forallb]. intros H.
  apply andb_true_iff in H as [Hc Hcs].
  apply negb_true_iff in Hc. now split.
Qed.

Lemma no_realloc_cons (c : Call) (cs : list Call) :
  no_realloc (c :: cs) = true -> is_realloc c = false /\ no_realloc cs = true.
Proof.
  unfold no_realloc. cbn [forallb]. intros H.
  apply andb_true_iff in H as [Hc Hcs].
  apply negb_true_iff in Hc. now split.
Qed.

(** A field that every call other than the reset moves by [f], moves by
    the tally of [f] over a sequence without reset. *)
Lemma tally_field (field : Memory_Stats -> usize) (f : Call -> World -> Z) :
  (forall c w, is_reset c = false -> in_usize (field (stats w)) ->
               field (stats (exec c w)) = wrap (field (stats w) + f c w)) ->
  forall cs w,
    no_reset cs = true ->
    in_usize (field (stats w)) ->
    field (stats (run cs w)) = wrap (field (stats w) + tally f cs w).
Proof.
  intros Hstep cs. induction cs as [| c cs IH]; intros w Hcs Hw.
  - cbn. now apply wrap_add_zero.
  - apply no_reset_cons in Hcs as [Hc Hcs]. cbn [run tally].
    rewrite IH; trivial.
    + rewrite (Hstep c w Hc Hw), wrap_add_wrap_l. f_equal. lia.
    + rewrite (Hstep c w Hc Hw). apply wrap_in_usize.
Qed.

Lemma exec_allocation_count (c : Call) (w : World) :
  is_reset c = false ->
  in_usize (allocation_count (stats w)) ->
  allocation_count (stats (exec c w)) =
  wrap (allocation_count (stats w) + allocation_of c w).
Proof.
  intros Hc Hw.
  destruct c as [size | count size | pointer new_size | pointer |];
    cbn [exec allocation_of]; [| | | | discriminate].
  - unfold granted; cbn [returned]. rewrite ds_malloc_stats.
    destruct (_ =? _); cbn; [now apply wrap_add_zero | reflexivity].
  - unfold granted; cbn [returned]. rewrite ds_calloc_stats.
    destruct (_ =? _); cbn; [now apply wrap_add_zero | reflexivity].
  - rewrite ds_realloc_stats.
    destruct (negb _ && _); cbn; now apply wrap_add_zero.
  - rewrite ds_free_stats. destruct (_ =? _); cbn; now apply wrap_add_zero.
Qed.

Lemma exec_free_count (c : Call) (w : World) :
  is_reset c = false ->
  in_usize (free_count (stats w)) ->
  free_count (stats (exec c w)) = wrap (free_count (stats w) + release_of c).
Proof.
  intros Hc Hw.
  destruct c as [size | count size | pointer new_size | pointer |];
    cbn [exec release_of]; [| | | | discriminate].
  - rewrite ds_malloc_stats. destruct (_ =? _); cbn; now apply wrap_add_zero.
  - rewrite ds_calloc_stats. destruct (_ =? _); cbn; now apply wrap_add_zero.
  - rewrite ds_realloc_stats.
    destruct (negb _ && _); cbn; now apply wrap_add_zero.
  - rewrite ds_free_stats.
    destruct (_ =? _); cbn; [now apply wrap_add_zero | reflexivity].
Qed.

Lemma exec_total_allocated (c : Call) (w : World) :
  is_reset c = false ->
  in_usize (total_allocated (stats w)) ->
  total_allocated (stats (exec c w)) =
  wrap (total_allocated (stats w) + bytes_of c w).
Proof.
  intros Hc Hw.
  destruct c as [size | count size | pointer new_size | pointer |];
    unfold bytes_of, granted; cbn [exec returned]; [| | | | discriminate].
  - rewrite ds_malloc_stats.
    destruct (_ =? _); cbn; [now apply wrap_add_zero | reflexivity].
  - rewrite ds_calloc_stats.
    destruct (_ =? _); cbn; [now apply wrap_add_zero | reflexivity].
  - rewrite ds_realloc_stats.
    destruct (_ =? _); cbn; [now apply wrap_add_zero |].
    destruct (new_size >? 0); cbn; [reflexivity | now apply wrap_add_zero].
  - rewrite ds_free_stats. destruct (_ =? _); cbn; now apply wrap_add_zero.
Qed.

(** X1. Over calls without a reset, [allocation_count] grows by the number
    of granted [ds_malloc] and [ds_calloc] calls, modulo [2^usize_bits];
    [ds_realloc] is never counted, not even when it is given [NULL] and
    allocates a fresh block. *)
Theorem allocation_count_tally (cs : list Call) (w : World) :
  no_reset cs = true ->
  in_usize (allocation_count (stats w)) ->
  allocation_count (stats (run cs w)) =
  wrap (allocation_count (stats w) + tally allocation_of cs w).
Proof. apply (tally_field allocation_count), exec_allocation_count. Qed.

(** X2. Over calls without a reset, [free_count] grows by the number of
    [ds_free] calls on a non-null pointer, modulo [2^usize_bits]; a block
    released through [ds_realloc] is not counted. *)
Theorem free_count_tally (cs : list Call) (w : World) :
  no_reset cs = true ->
  in_usize (free_count (stats w)) ->
  free_count (stats (run cs w)) =
  wrap (free_count (stats w) + tally (fun c _ => release_of c) cs w).
Proof.
  apply (tally_field free_count (fun c _ => release_of c)).
  intros c w'. apply exec_free_count.
Qed.

(** X3. Over calls without a reset, [total_allocated] grows by the sum of
    the byte counts of the granted requests ([size], [count * size]
    reduced, [new_size]), modulo [2^usize_bits]; releases subtract
    nothing. *)
Theorem total_allocated_tally (cs : list Call) (w : World) :
  no_reset cs = true ->
  in_usize (total_allocated (stats w)) ->
  total_allocated (stats (run cs w)) =
  wrap (total_allocated (stats w) + tally bytes_of cs w).
Proof. apply (tally_field total_allocated), exec_total_allocated. Qed.

End StatsTraces.

(** ** Invariants of the statistics *)

Section StatsInvariants.

Context `{P : Platform}.

(** Splits a conjunction of range facts without opening the ranges. *)
Ltac split_ranges := repeat match goal with |- _ /\ _ => split end.

Lemma in_usize_zero : in_usize 0.
Proof. unfold in_usize. pose proof usize_modulus_ge_2. lia. Qed.

Lemma after_allocation_in_usize (bytes : usize) (s : Memory_Stats) :
  in_usize (total_freed s) -> in_usize (peak_usage s) ->
  in_usize (free_count s) ->
  let s' := after_allocation bytes s in
  in_usize (total_allocated s') /\ in_usize (total_freed s') /\
  in_usize (current_usage s') /\ in_usize (peak_usage s') /\
  in_usize (allocation_count s') /\ in_usize (free_count s').
Proof.
  intros Hf Hp Hfc. unfold after_allocation; cbn.
  split_ranges; try apply wrap_in_usize; trivial.
  destruct (_ >? _); [apply wrap_in_usize | exact Hp].
Qed.

Lemma exec_keeps_range (c : Call) (w : World) :
  (in_usize (total_allocated (stats w)) /\ in_usize (total_freed (stats w)) /\
   in_usize (current_usage (stats w)) /\ in_usize (peak_usage (stats w)) /\
   in_usize (allocation_count (stats w)) /\ in_usize (free_count (stats w))) ->
  let s' := stats (exec c w) in
  in_usize (total_allocated s') /\ in_usize (total_freed s') /\
  in_usize (current_usage s') /\ in_usize (peak_usage s') /\
  in_usize (allocation_count s') /\ in_usize (free_count s').
Proof.
  intros (Ht & Hf & Hc & Hp & Ha & Hfc). cbv zeta.
  destruct c as [size | count size | pointer new_size | pointer |]; cbn [exec].
  - rewrite ds_malloc_stats. destruct (_ =? _); [tauto |].
    now apply after_allocation_in_usize.
  - rewrite ds_calloc_stats. destruct (_ =? _); [tauto |].
    now apply after_allocation_in_usize.
  - rewrite ds_realloc_stats. destruct (negb _ && _); cbn; [| tauto].
    split_ranges; trivial; apply wrap_in_usize.
  - rewrite ds_free_stats. destruct (_ =? _); cbn; [tauto |].
    split_ranges; trivial; apply wrap_in_usize.
  - cbn. split_ranges; apply in_usize_zero.
Qed.

(** X4. In every state reached from the all-zero statistics, whatever the
    sizes and pointers passed, each of the six fields is a value of
    [usize]: between 0 and [2^usize_bits - 1]. *)
Theorem stats_stay_in_usize (h0 : Heap) (w : World) :
  reachable (initial_world h0) w ->
  in_usize (total_allocated (stats w)) /\ in_usize (total_freed (stats w)) /\
  in_usize (current_usage (stats w)) /\ in_usize (peak_usage (stats w)) /\
  in_usize (allocation_count (stats w)) /\ in_usize (free_count (stats w)).
Proof.
  intros Hreach. induction Hreach as [| c w Hreach IH].
  - cbn. split_ranges; apply in_usize_zero.
  - now apply exec_keeps_range.
Qed.

Lemma exec_peak_covers (c : Call) (w : World) :
  is_realloc c = false ->
  current_usage (stats w) <= peak_usage (stats w) ->
  current_usage (stats (exec c w)) <= peak_usage (stats (exec c w)).
Proof.
  intros Hc Hw.
  destruct c as [size | count size | pointer new_size | pointer |];
    cbn [exec]; [| | discriminate | |].
  - rewrite ds_malloc_stats. destruct (_ =? _); [exact Hw |].
    apply after_allocation_peak.
  - rewrite ds_calloc_stats. destruct (_ =? _); [exact Hw |].
    apply after_allocation_peak.
  - rewrite ds_free_stats. destruct (_ =? _); cbn; exact Hw.
  - cbn. lia.
Qed.

Lemma exec_peak_is_max (c : Call) (w : World) :
  is_realloc c = false ->
  is_reset c = false ->
  current_usage (stats w) <= peak_usage (stats w) ->
  peak_usage (stats (exec c w)) =
  Z.max (peak_usage (stats w)) (current_usage (stats (exec c w))).
Proof.
  intros Hc Hr Hw.
  destruct c as [size | count size | pointer new_size | pointer |];
    cbn [exec]; [| | discriminate | | discriminate].
  - rewrite ds_malloc_stats. destruct (_ =? _); [lia |].
    apply after_allocation_peak_is_max.
  - rewrite ds_calloc_stats. destruct (_ =? _); [lia |].
    apply after_allocation_peak_is_max.
  - rewrite ds_free_stats. destruct (_ =? _); cbn; lia.
Qed.

Lemma fold_max_base (p c : Z) (l : list Z) :
  fold_right Z.max (Z.max p c) l = Z.max c (fold_right Z.max p l).
Proof. induction l as [| x l IH]; cbn; [| rewrite IH]; lia. Qed.

(** X5. As long as [ds_realloc] is not called, the peak covers the usage:
    after any sequence of [ds_malloc], [ds_calloc], [ds_free] and resets
    from the all-zero statistics, [current_usage <= peak_usage]. *)
Theorem peak_covers_usage_without_realloc (cs : list Call) (h0 : Heap) :
  no_realloc cs = true ->
  current_usage (stats (run cs (initial_world h0))) <=
  peak_usage (stats (run cs (initial_world h0))).
Proof.
  assert (forall w, no_realloc cs = true ->
            current_usage (stats w) <= peak_usage (stats w) ->
            current_usage (stats (run cs w)) <= peak_usage (stats (run cs w)))
    as Hgen.
  { induction cs as [| c cs IH]; intros w Hcs Hw; cbn [run]; [exact Hw |].
    apply no_realloc_cons in Hcs as [Hc Hcs].
    apply IH; [exact Hcs | now apply exec_peak_covers]. }
  intros Hcs. apply Hgen; [exact Hcs | cbn; lia].
Qed.

(** X6. Over [ds_malloc], [ds_calloc] and [ds_free] calls alone, started
    in a state whose peak covers its usage, [peak_usage] ends as the
    maximum of its starting value and of [current_usage] after each
    call. *)
Theorem peak_is_max_of_history (cs : list Call) (w : World) :
  no_realloc cs = true ->
  no_reset cs = true ->
  current_usage (stats w) <= peak_usage (stats w) ->
  peak_usage (stats (run cs w)) =
  fold_right Z.max (peak_usage (stats w)) (usage_history cs w).
Proof.
  revert w. induction cs as [| c cs IH]; intros w Hra Hrs Hw;
    cbn [run usage_history fold_right]; [reflexivity |].
  apply no_realloc_cons in Hra as [Hc Hra].
  apply no_reset_cons in Hrs as [Hr Hrs].
  rewrite IH; trivial; [| now apply exec_peak_covers].
  rewrite (exec_peak_is_max c w Hc Hr Hw). apply fold_max_base.
Qed.

(** X7. Over any calls without a reset, [ds_realloc] included,
    [peak_usage] never goes down. *)
Theorem run_peak_monotone (cs : list Call) (w : World) :
  no_reset cs = true ->
  peak_usage (stats w) <= peak_usage (stats (run cs w)).
Proof.
  revert w. induction cs as [| c cs IH]; intros w Hcs; cbn [run]; [lia |].
  apply no_reset_cons in Hcs as [Hc Hcs].
  specialize (IH (exec c w) Hcs).
  assert (c <> Call_reset) as Hne by (intros ->; discriminate).
  pose proof (exec_peak_monotone c w Hne). lia.
Qed.

(** X8. A [ds_realloc] that returns [NULL], or that is asked for 0 bytes
    (whatever it returns), leaves all six statistics as they were: a block
    released by resizing to 0 is not counted in [free_count]. *)
Theorem ds_realloc_without_effect (pointer : ptr) (new_size : usize) (w : World) :
  fst (ds_realloc pointer new_size w) = NULL \/ new_size = 0 ->
  stats (snd (ds_realloc pointer new_size w)) = stats w.
Proof.
  intros [Hnull | Hzero]; rewrite ds_realloc_stats.
  - rewrite Hnull. reflexivity.
  - subst new_size. rewrite andb_false_r. reflexivity.
Qed.

End StatsInvariants.

(** ** More on the Result contract *)

Section ResultFacts.

Context `{P : Platform}.

(** X9. When the function goes on after [CHECKED_ALLOC], the pointer it
    was given is the non-null pointer [malloc] returned, and the
    statistics record one allocation of [sizeof(type)] bytes; the macro
    never continues with [NULL]. *)
Theorem CHECKED_ALLOC_delivers
  (type : string) (sizeof_type : usize) (file_ : string) (line_ : Z)
  (w : World) (p : ptr) :
  fst (CHECKED_ALLOC type sizeof_type file_ line_ w) = Continue p ->
  p <> NULL /\
  p = fst (malloc sizeof_type (heap w)) /\
  stats (snd (CHECKED_ALLOC type sizeof_type file_ line_ w)) =
  after_allocation sizeof_type (stats w).
Proof.
  unfold CHECKED_ALLOC, ALLOC.
  pose proof (ds_malloc_stats sizeof_type w) as Hstats.
  assert (fst (ds_malloc sizeof_type w) = fst (malloc sizeof_type (heap w)))
    as Hfst.
  { unfold ds_malloc. destruct (malloc sizeof_type (heap w)) as [r h].
    destruct (negb (r =? NULL)); reflexivity. }
  destruct (ds_malloc sizeof_type w) as [q w']. cbn [fst snd] in *.
  destruct (pointer_cases q) as [[_ E] | [Hq E]]; rewrite E in *; cbn [fst snd].
  - discriminate.
  - intros [= <-]. auto.
Qed.

(** X10. On the fourteen enumerators [result_description] is one-to-one:
    two different kinds never share a description. *)
Theorem result_description_injective (a b : Result_Code) :
  In a enumerators -> In b enumerators ->
  result_description a = result_description b -> a = b.
Proof.
  unfold enumerators. cbn [In]. intros Ha Hb.
  repeat (destruct Ha as [<- | Ha];
          [ repeat (destruct Hb as [<- | Hb];
                    [ intros H; first [reflexivity | discriminate H] |]);
            contradiction |]).
  contradiction.
Qed.

(** X11. An outcome built by [RESULT_ERROR] counts as an error exactly when
    its code is not [DS_SUCCESS]: built with [DS_SUCCESS] it passes
    [result_is_success] and [CHECK_RESULT] lets it through; and an outcome
    is a success or an error, never both. *)
Theorem RESULT_ERROR_is_error_iff
  (c : Result_Code) (msg file_ : string) (line_ : Z) (r : Result) :
  (result_is_error (RESULT_ERROR c msg file_ line_) = true <->
   c <> DS_SUCCESS) /\
  (c = DS_SUCCESS ->
   CHECK_RESULT (RESULT_ERROR c msg file_ line_) = Continue tt) /\
  result_is_success (RESULT_SUCCESS file_ line_) = true /\
  result_is_error r = negb (result_is_success r).
Proof.
  unfold CHECK_RESULT, result_is_error, result_is_success, RESULT_ERROR.
  cbn [code]. split; [| split; [| split; reflexivity]].
  - destruct (Z.eqb_spec c DS_SUCCESS); cbn; split; congruence.
  - intros ->. reflexivity.
Qed.

(** X12. [DS_ASSERT] on a false condition makes the function return an
    outcome with code [DS_ERROR_INVALID_ARGUMENT] and the given message,
    which a caller's [CHECK_RESULT] then hands on; on a true condition
    the function goes on. *)
Theorem DS_ASSERT_outcome
  (condition : bool) (msg file_ : string) (line_ : Z)
  (rest : unit -> Flow Result) :
  (condition = false ->
   let r := returns (and_then (DS_ASSERT condition msg file_ line_) rest) in
   r = {| code := DS_ERROR_INVALID_ARGUMENT; message := msg;
          file := file_; line := line_ |} /\
   CHECK_RESULT r = Return r) /\
  (condition = true ->
   and_then (DS_ASSERT condition msg file_ line_) rest = rest tt).
Proof.
  split; intros ->; cbn; [split |]; reflexivity.
Qed.

End ResultFacts.

(** ** utils.c : comparisons *)

Section Comparisons.

Lemma three_way_sign (a b : Z) :
  Z.b2z (a >? b) - Z.b2z (a <? b) =
  match a ?= b with Lt => -1 | Eq => 0 | Gt => 1 end.
Proof.
  destruct (Z.gtb_spec a b), (Z.ltb_spec a b), (Z.compare_spec a b);
    cbn; lia.
Qed.

(** X13. [compare_int] and [compare_char] return -1 when the first value
    is smaller, 0 when the two are equal and 1 when it is larger; no
    subtraction of the operands is involved, so there is no overflow for
    any pair of values. *)
Theorem compare_int_sign (a b : Z) :
  compare_int a b = match a ?= b with Lt => -1 | Eq => 0 | Gt => 1 end /\
  compare_char a b = match a ?= b with Lt => -1 | Eq => 0 | Gt => 1 end.
Proof. split; apply three_way_sign. Qed.

(** X14. [compare_int] is a consistent ordering function: swapping the
    arguments negates the result, the result is 0 only for equal values,
    and "not greater" is transitive. *)
Theorem compare_int_order (a b c : Z) :
  compare_int b a = - compare_int a b /\
  (compare_int a b = 0 <-> a = b) /\
  (compare_int a b <= 0 -> compare_int b c <= 0 -> compare_int a c <= 0).
Proof.
  unfold compare_int. rewrite !three_way_sign.
  destruct (Z.compare_spec a b), (Z.compare_spec b a), (Z.compare_spec b c),
    (Z.compare_spec a c); repeat split; intros; lia.
Qed.

End Comparisons.

(** ** utils.c : capacities *)

Section CapacityFacts.

Context `{P : Platform}.

Lemma usize_modulus_half : usize_modulus = 2 * 2 ^ (Zpos usize_bits - 1).
Proof.
  unfold usize_modulus.
  rewrite <- Z.pow_succ_r by lia. f_equal. lia.
Qed.

Lemma wrap_once (x : Z) :
  usize_modulus <= x < 2 * usize_modulus -> wrap x = x - usize_modulus.
Proof.
  intros Hx. unfold wrap. symmetry.
  apply (Z.mod_unique_pos x usize_modulus 1); lia.
Qed.

(** X15. When neither [current * 2] nor [current + min_growth] overflows,
    [calculate_growth] returns the larger of the two, and at least 1: the
    new capacity always has room for [min_growth] more elements. *)
Theorem calculate_growth_fits (current min_growth : usize) :
  in_usize current -> in_usize min_growth ->
  in_usize (2 * current) -> in_usize (current + min_growth) ->
  calculate_growth current min_growth =
  Z.max 1 (Z.max (2 * current) (current + min_growth)).
Proof.
  intros Hc Hg H2 Hs. unfold calculate_growth.
  unfold in_usize in Hc, Hg.
  destruct (Z.eqb_spec current 0) as [-> | Hne].
  - destruct (Z.gtb_spec min_growth 1); lia.
  - replace (current * 2) with (2 * current) by lia.
    rewrite !wrap_small by assumption.
    destruct (Z.ltb_spec (2 * current) (current + min_growth)); lia.
Qed.

(** X16. When [current * 2] overflows [usize] but [current + min_growth]
    still fits, [calculate_growth] returns [current + min_growth]: the
    capacity stops doubling, and with [min_growth = 0] it does not grow
    at all. *)
Theorem calculate_growth_past_half (current min_growth : usize) :
  2 ^ (Zpos usize_bits - 1) <= current ->
  0 <= min_growth ->
  in_usize (current + min_growth) ->
  calculate_growth current min_growth = current + min_growth.
Proof.
  intros Hhalf Hg Hs. unfold calculate_growth.
  pose proof usize_modulus_half as HM. pose proof usize_modulus_ge_2 as H2.
  unfold in_usize in Hs.
  destruct (Z.eqb_spec current 0) as [-> | Hne]; [lia |].
  rewrite (wrap_small (current + min_growth)) by assumption.
  rewrite (wrap_once (current * 2)) by lia.
  destruct (Z.ltb_spec (current * 2 - usize_modulus) (current + min_growth));
    lia.
Qed.

End CapacityFacts.

(** ** utils.c : powers of two *)

Section PowersOfTwo.

Context `{P : Platform}.

Lemma land_pow2_pred (k : Z) : 0 <= k -> Z.land (2 ^ k) (2 ^ k - 1) = 0.
Proof.
  intros Hk. rewrite Z.sub_1_r, <- Z.ones_equiv, Z.land_ones by assumption.
  apply Z_mod_same_full.
Qed.

(** A positive number that is not [2 ^ log2 n] shares its top bit with its
    predecessor. *)
Lemma land_pred_top_bit (n : Z) :
  0 < n -> n <> 2 ^ Z.log2 n -> Z.land n (n - 1) <> 0.
Proof.
  intros Hn Hne Hland.
  pose proof (Z.log2_spec n Hn) as [Hlo Hhi].
  pose proof (Z.log2_nonneg n) as Hk.
  assert (Z.log2 (n - 1) = Z.log2 n) as Hlog
    by (apply Z.log2_unique; [assumption | lia]).
  assert (Z.testbit (Z.land n (n - 1)) (Z.log2 n) = true) as Hbit.
  { rewrite Z.land_spec, (Z.bit_log2 n Hn).
    rewrite <- Hlog. rewrite Z.bit_log2 by lia. reflexivity. }
  rewrite Hland, Z.bits_0 in Hbit. discriminate.
Qed.

Lemma is_power_of_two_pow2 (k : Z) :
  0 <= k -> in_usize (2 ^ k) -> is_power_of_two (2 ^ k) = true.
Proof.
  intros Hk Hin. unfold is_power_of_two.
  assert (0 < 2 ^ k) as Hpos by (apply Z.pow_pos_nonneg; lia).
  rewrite wrap_small by (unfold in_usize in *; lia).
  rewrite land_pow2_pred by assumption.
  destruct (Z.eqb_spec (2 ^ k) 0); [lia | reflexivity].
Qed.

Lemma is_power_of_two_log2 (n : usize) :
  in_usize n -> is_power_of_two n = true -> 0 < n /\ n = 2 ^ Z.log2 n.
Proof.
  intros Hin Hp. unfold is_power_of_two in Hp.
  apply andb_true_iff in Hp as [Hnz Hland].
  apply negb_true_iff, Z.eqb_neq in Hnz. apply Z.eqb_eq in Hland.
  unfold in_usize in Hin.
  rewrite wrap_small in Hland by (unfold in_usize; lia).
  split; [lia |].
  destruct (Z.eq_dec n (2 ^ Z.log2 n)) as [E | E]; [exact E |].
  exfalso. apply (land_pred_top_bit n); [lia | assumption | assumption].
Qed.

(** X17. For a [usize] value, [is_power_of_two] answers [true] exactly on
    the powers of two [2^k]; in particular it answers [false] on 0. *)
Theorem is_power_of_two_iff (n : usize) :
  in_usize n ->
  (is_power_of_two n = true <-> exists k, 0 <= k /\ n = 2 ^ k).
Proof.
  intros Hin. split.
  - intros Hp. exists (Z.log2 n). split; [apply Z.log2_nonneg |].
    now apply is_power_of_two_log2.
  - intros (k & Hk & ->). now apply is_power_of_two_pow2.
Qed.

(** Bits of [n | n >> s]. *)
Lemma testbit_spread (x s i : Z) :
  0 <= i -> 0 <= s ->
  Z.testbit (Z.lor x (Z.shiftr x s)) i = Z.testbit x i || Z.testbit x (i + s).
Proof. intros Hi Hs. now rewrite Z.lor_spec, Z.shiftr_spec. Qed.

(** [y] has bit [i] exactly when [x] has a bit in the [m] positions from
    [i] upwards. *)
Local Notation window x y m :=
  (forall i, 0 <= i ->
     (Z.testbit y i = true <->
      exists j, i <= j < i + m /\ Z.testbit x j = true)).

Lemma window_start (x : Z) : window x x 1.
Proof.
  intros i Hi. split.
  - intros H. exists i. split; [lia | exact H].
  - intros (j & Hj & H). now replace i with j by lia.
Qed.

Lemma window_spread (x y m : Z) :
  0 < m -> window x y m -> window x (Z.lor y (Z.shiftr y m)) (2 * m).
Proof.
  intros Hm Hw i Hi.
  rewrite testbit_spread, orb_true_iff, (Hw i), (Hw (i + m)) by lia.
  split.
  - intros [(j & Hj & H) | (j & Hj & H)]; exists j; split; trivial; lia.
  - intros (j & Hj & H).
    destruct (Z_lt_le_dec j (i + m)); [left | right]; exists j;
      split; trivial; lia.
Qed.

(** Once the window is as wide as the number, every bit up to the top one
    is set. *)
Lemma window_full (x y m : Z) :
  0 < x -> Z.log2 x < m -> window x y m -> y = Z.ones (Z.log2 x + 1).
Proof.
  intros Hx Hm Hw. pose proof (Z.log2_nonneg x) as Hk.
  apply Z.bits_inj'. intros i Hi.
  destruct (Z_le_gt_dec i (Z.log2 x)) as [Hle | Hgt].
  - rewrite Z.ones_spec_low by lia.
    apply (Hw i Hi). exists (Z.log2 x). split; [lia |].
    now apply Z.bit_log2.
  - rewrite Z.ones_spec_high by lia.
    destruct (Z.testbit y i) eqn:E; [| reflexivity].
    apply (Hw i Hi) in E as (j & Hj & Hbit).
    rewrite Z.bits_above_log2 in Hbit by lia. discriminate.
Qed.

Lemma next_power_of_two_eq (lp64 : bool) (n : usize) :
  Zpos usize_bits <= (if lp64 then 64 else 32) ->
  in_usize n -> 0 < n ->
  next_power_of_two lp64 n = wrap (2 ^ Z.log2_up n).
Proof.
  intros Hbits Hin Hn. unfold next_power_of_two.
  destruct (Z.eqb_spec n 0) as [| _]; [lia |].
  unfold in_usize in Hin.
  rewrite (wrap_small (n - 1)) by (unfold in_usize; lia).
  destruct (Z.eq_dec n 1) as [-> | Hn1].
  - destruct lp64; reflexivity.
  - assert (0 < n - 1) as Hx by lia.
    assert (Z.log2 (n - 1) < Zpos usize_bits) as Hlog
      by (apply Z.log2_lt_pow2; [assumption | unfold usize_modulus in Hin; lia]).
    pose proof (window_start (n - 1)) as W1.
    pose proof (window_spread _ _ 1 ltac:(lia) W1) as W2.
    pose proof (window_spread _ _ 2 ltac:(lia) W2) as W4.
    pose proof (window_spread _ _ 4 ltac:(lia) W4) as W8.
    pose proof (window_spread _ _ 8 ltac:(lia) W8) as W16.
    pose proof (window_spread _ _ 16 ltac:(lia) W16) as W32.
    clear W1 W2 W4 W8 W16.
    cbv zeta.
    assert (Z.log2_up n = Z.log2 (n - 1) + 1) as Hup
      by (rewrite Z.log2_up_eqn by lia; rewrite <- Z.sub_1_r; lia).
    destruct lp64; cbv iota in Hbits.
    + pose proof (window_spread _ _ 32 ltac:(lia) W32) as W64.
      rewrite (window_full _ _ 64 Hx ltac:(lia) W64).
      rewrite Z.ones_equiv, Hup. f_equal. lia.
    + rewrite (window_full _ _ 32 Hx ltac:(lia) W32).
      rewrite Z.ones_equiv, Hup. f_equal. lia.
Qed.

Lemma half_in_usize (n : Z) :
  0 <= n <= 2 ^ (Zpos usize_bits - 1) -> in_usize n.
Proof.
  intros Hn. unfold in_usize. pose proof usize_modulus_half.
  assert (0 < 2 ^ (Zpos usize_bits - 1)) by (apply Z.pow_pos_nonneg; lia).
  lia.
Qed.

Lemma next_power_of_two_in_range (lp64 : bool) (n : usize) :
  Zpos usize_bits <= (if lp64 then 64 else 32) ->
  0 < n <= 2 ^ (Zpos usize_bits - 1) ->
  next_power_of_two lp64 n = 2 ^ Z.log2_up n /\
  in_usize (2 ^ Z.log2_up n).
Proof.
  intros Hbits Hn.
  assert (in_usize (2 ^ Z.log2_up n)) as Hin.
  { apply half_in_usize. split; [apply Z.pow_nonneg; lia |].
    apply Z.pow_le_mono_r; [lia |].
    apply Z.log2_up_le_pow2; lia. }
  split; [| exact Hin].
  rewrite next_power_of_two_eq; trivial; [| apply half_in_usize; lia | lia].
  now apply wrap_small.
Qed.

(** X18. For [n] from 1 up to [2^(usize_bits - 1)],
    [next_power_of_two] returns the smallest power of two that is at
    least [n]: it is [2 ^ log2_up n], with [n <= result < 2 * n]. The
    shifts have to cover the width of [usize]: 32 bits without
    [__LP64__], 64 with it. *)
Theorem next_power_of_two_spec (lp64 : bool) (n : usize) :
  Zpos usize_bits <= (if lp64 then 64 else 32) ->
  0 < n <= 2 ^ (Zpos usize_bits - 1) ->
  next_power_of_two lp64 n = 2 ^ Z.log2_up n /\
  n <= next_power_of_two lp64 n < 2 * n.
Proof.
  intros Hbits Hn.
  destruct (next_power_of_two_in_range lp64 n Hbits Hn) as [-> _].
  split; [reflexivity |].
  destruct (Z.eq_dec n 1) as [-> | Hn1]; [cbn; lia |].
  assert (1 < n) as Hgt by lia.
  pose proof (Z.log2_up_spec n Hgt) as [Hlo Hhi].
  pose proof (Z.log2_up_pos n Hgt) as Hpos.
  replace (Z.log2_up n) with (Z.succ (Z.pred (Z.log2_up n))) at 2 by lia.
  rewrite Z.pow_succ_r by lia. lia.
Qed.




End PowersOfTwo.

(** ** utils.c : swapping bytes *)

Section SwapBytes.

(** Decides every comparison in the goal and closes what arithmetic or a
    rewrite of the address closes. *)
Ltac split_tests :=
  repeat match goal with
         | |- context [?x <=? ?y] => destruct (Z.leb_spec x y)
         | |- context [?x <? ?y] => destruct (Z.ltb_spec x y)
         | |- context [?x =? ?y] => destruct (Z.eqb_spec x y)
         end;
  cbn [andb]; try lia; try (f_equal; lia).

(** The loop on two regions that do not meet, cell by cell. *)
Lemma swap_bytes_from_cells (a b : ptr) (steps : nat) :
  forall (i : usize) (m : Bytes) (q : ptr),
    a + Z.of_nat steps <= b \/ b + Z.of_nat steps <= a ->
    swap_bytes_from a b i steps m q =
    if (a + i <=? q) && (q <? a + i + Z.of_nat steps) then m (q - a + b)
    else if (b + i <=? q) && (q <? b + i + Z.of_nat steps) then m (q - b + a)
    else m q.
Proof.
  induction steps as [| steps IH]; intros i m q Hapart.
  - cbn [swap_bytes_from]. split_tests.
  - cbn [swap_bytes_from]. rewrite IH by lia.
    rewrite Nat2Z.inj_succ in *. unfold store. split_tests.
Qed.

Lemma swap_bytes_from_outside (a b : ptr) (steps : nat) :
  forall (i : usize) (m : Bytes) (q : ptr),
    q < a + i \/ a + i + Z.of_nat steps <= q ->
    q < b + i \/ b + i + Z.of_nat steps <= q ->
    swap_bytes_from a b i steps m q = m q.
Proof.
  induction steps as [| steps IH]; intros i m q Ha Hb;
    cbn [swap_bytes_from]; [reflexivity |].
  rewrite Nat2Z.inj_succ in *. rewrite IH by lia.
  unfold store. split_tests.
Qed.

(** The loop reads memory only through its cells. *)
Lemma swap_bytes_from_ext (a b : ptr) (steps : nat) :
  forall (i : usize) (m m' : Bytes),
    (forall q, m q = m' q) ->
    forall q, swap_bytes_from a b i steps m q = swap_bytes_from a b i steps m' q.
Proof.
  induction steps as [| steps IH]; intros i m m' Hsame q;
    cbn [swap_bytes_from]; [apply Hsame |].
  apply IH. intros r. unfold store. rewrite !Hsame. reflexivity.
Qed.

Lemma swap_bytes_from_same (a : ptr) (steps : nat) :
  forall (i : usize) (m : Bytes) (q : ptr),
    swap_bytes_from a a i steps m q = m q.
Proof.
  induction steps as [| steps IH]; intros i m q;
    cbn [swap_bytes_from]; [reflexivity |].
  rewrite (swap_bytes_from_ext a a steps (i + 1) _ m).
  - apply IH.
  - intros r. unfold store. destruct (Z.eqb_spec r (a + i)); congruence.
Qed.

(** X22. On two regions of [size] bytes that do not overlap,
    [swap_bytes] exchanges them: byte [i] of each region ends as what
    byte [i] of the other was. *)
Theorem swap_bytes_exchanges (a b : ptr) (size i : usize) (m : Bytes) :
  a + size <= b \/ b + size <= a ->
  0 <= i < size ->
  swap_bytes a b size m (a + i) = m (b + i) /\
  swap_bytes a b size m (b + i) = m (a + i).
Proof.
  intros Hapart Hi. unfold swap_bytes.
  rewrite !swap_bytes_from_cells by lia.
  rewrite Z2Nat.id by lia. split; split_tests.
Qed.

(** X23. [swap_bytes] writes to no byte outside the two regions, whether
    they overlap or not; with [size = 0] it writes nothing. *)
Theorem swap_bytes_frame (a b : ptr) (size : usize) (m : Bytes) (q : ptr) :
  q < a \/ a + size <= q ->
  q < b \/ b + size <= q ->
  swap_bytes a b size m q = m q.
Proof.
  intros Ha Hb. unfold swap_bytes.
  apply swap_bytes_from_outside; lia.
Qed.

(** X24. Called with the same pointer twice, [swap_bytes] leaves the
    memory as it was. *)
Theorem swap_bytes_same_pointer (a : ptr) (size : usize) (m : Bytes) (q : ptr) :
  swap_bytes a a size m q = m q.
Proof. unfold swap_bytes. apply swap_bytes_from_same. Qed.

(** X25. On two regions that do not overlap, swapping twice restores
    every byte of the memory. *)
Theorem swap_bytes_twice (a b : ptr) (size : usize) (m : Bytes) (q : ptr) :
  a + size <= b \/ b + size <= a ->
  swap_bytes a b size (swap_bytes a b size m) q = m q.
Proof.
  intros Hapart. unfold swap_bytes.
  destruct (Z_lt_le_dec size 0) as [Hneg | Hsize].
  - replace (Z.to_nat size) with 0%nat by lia. reflexivity.
  - rewrite !swap_bytes_from_cells by lia.
    rewrite Z2Nat.id by lia. split_tests.
Qed.

End SwapBytes.

(** ** The added properties on concrete inputs *)

Section MoreRuns.

Lemma arena_zero_in_usize : @in_usize arena 0.
Proof. unfold in_usize. split; [lia | reflexivity]. Defined.

Lemma allocation_count_tally_witness :
  allocation_count (stats (run sample_calls arena_start)) = 2.
Proof.
  apply (@allocation_count_tally arena sample_calls arena_start).
  - reflexivity.
  - exact arena_zero_in_usize.
Defined.

Lemma free_count_tally_witness :
  free_count (stats (run sample_calls arena_start)) = 1.
Proof.
  apply (@free_count_tally arena sample_calls arena_start).
  - reflexivity.
  - exact arena_zero_in_usize.
Defined.

Lemma total_allocated_tally_witness :
  total_allocated (stats (run sample_calls arena_start)) = 182.
Proof.
  apply (@total_allocated_tally arena sample_calls arena_start).
  - reflexivity.
  - exact arena_zero_in_usize.
Defined.

Lemma stats_stay_in_usize_witness :
  let w := exec (Call_realloc 16 200) (exec (Call_malloc 100) arena_start) in
  @in_usize arena (total_allocated (stats w)) /\
  @in_usize arena (total_freed (stats w)) /\
  @in_usize arena (current_usage (stats w)) /\
  @in_usize arena (peak_usage (stats w)) /\
  @in_usize arena (allocation_count (stats w)) /\
  @in_usize arena (free_count (stats w)).
Proof.
  apply (@stats_stay_in_usize arena 16).
  apply (reach_call _ (Call_realloc 16 200)).
  apply (reach_call _ (Call_malloc 100)).
  apply reach_start.
Defined.

Lemma peak_covers_usage_without_realloc_witness :
  current_usage
    (stats (run [Call_malloc 100; Call_free 16; Call_reset; Call_calloc 4 8]
              (@initial_world arena 16))) <=
  peak_usage
    (stats (run [Call_malloc 100; Call_free 16; Call_reset; Call_calloc 4 8]
              (@initial_world arena 16))).
Proof.
  apply (@peak_covers_usage_without_realloc arena
           [Call_malloc 100; Call_free 16; Call_reset; Call_calloc 4 8] 16).
  reflexivity.
Defined.

Lemma peak_is_max_of_history_witness :
  peak_usage
    (stats (run [Call_malloc 100; Call_free 16; Call_calloc 4 8] arena_start)) =
  fold_right Z.max 0 [100; 100; 132].
Proof.
  apply (@peak_is_max_of_history arena
           [Call_malloc 100; Call_free 16; Call_calloc 4 8] arena_start).
  - reflexivity.
  - reflexivity.
  - cbn. lia.
Defined.

Lemma run_peak_monotone_witness :
  peak_usage (stats arena_start) <=
  peak_usage (stats (run sample_calls arena_start)).
Proof.
  apply (@run_peak_monotone arena sample_calls arena_start). reflexivity.
Defined.

Lemma ds_realloc_without_effect_witness :
  stats (snd (@ds_realloc arena NULL 5000 arena_start)) = stats arena_start /\
  stats (snd (@ds_realloc arena 16 0 arena_start)) = stats arena_start.
Proof.
  split.
  - apply (@ds_realloc_without_effect arena NULL 5000 arena_start).
    left. reflexivity.
  - apply (@ds_realloc_without_effect arena 16 0 arena_start).
    right. reflexivity.
Defined.

Lemma CHECKED_ALLOC_delivers_witness :
  16 <> NULL /\
  16 = fst (@malloc arena 24 (heap arena_start)) /\
  stats (snd (@CHECKED_ALLOC arena "Node" 24 "list.c" 42 arena_start)) =
  @after_allocation arena 24 (stats arena_start).
Proof.
  apply (@CHECKED_ALLOC_delivers arena "Node" 24 "list.c" 42 arena_start 16).
  reflexivity.
Defined.

Lemma result_description_injective_witness :
  DS_ERROR_NOT_FOUND = DS_ERROR_NOT_FOUND.
Proof.
  apply (result_description_injective DS_ERROR_NOT_FOUND DS_ERROR_NOT_FOUND).
  - unfold enumerators. cbn [In]. do 6 right. left. reflexivity.
  - unfold enumerators. cbn [In]. do 6 right. left. reflexivity.
  - reflexivity.
Defined.

Lemma RESULT_ERROR_is_error_iff_witness :
  result_is_error (RESULT_ERROR DS_ERROR_OVERFLOW "too big" "vec.c" 3) = true /\
  CHECK_RESULT (RESULT_ERROR DS_SUCCESS "fine" "vec.c" 4) = Continue tt.
Proof.
  split.
  - apply (proj1 (RESULT_ERROR_is_error_iff DS_ERROR_OVERFLOW "too big" "vec.c" 3
                    (RESULT_SUCCESS "vec.c" 1))).
    discriminate.
  - apply (proj1 (proj2 (RESULT_ERROR_is_error_iff DS_SUCCESS "fine" "vec.c" 4
                           (RESULT_SUCCESS "vec.c" 1)))).
    reflexivity.
Defined.

Lemma DS_ASSERT_outcome_witness :
  let rest := fun _ : unit => Continue (RESULT_SUCCESS "vec.c" 20) in
  returns (and_then (DS_ASSERT false "index < size" "vec.c" 11) rest) =
    {| code := DS_ERROR_INVALID_ARGUMENT; message := "index < size";
       file := "vec.c"; line := 11 |} /\
  and_then (DS_ASSERT true "index < size" "vec.c" 11) rest = rest tt.
Proof.
  cbv zeta. split.
  - apply (proj1 (DS_ASSERT_outcome false "index < size" "vec.c" 11
                    (fun _ => Continue (RESULT_SUCCESS "vec.c" 20)))).
    reflexivity.
  - apply (proj2 (DS_ASSERT_outcome true "index < size" "vec.c" 11
                    (fun _ => Continue (RESULT_SUCCESS "vec.c" 20)))).
    reflexivity.
Defined.

Lemma compare_int_order_witness :
  (compare_int 7 7 = 0 <-> 7 = 7) /\ compare_int (-3) 9 <= 0.
Proof.
  split.
  - apply (proj1 (proj2 (compare_int_order 7 7 7))).
  - apply (proj2 (proj2 (compare_int_order (-3) 2 9))); cbn; lia.
Defined.

Lemma calculate_growth_fits_witness :
  @calculate_growth arena 4 10 = 14 /\ @calculate_growth arena 0 0 = 1.
Proof.
  split.
  - apply (@calculate_growth_fits arena 4 10);
      unfold in_usize; split; (lia || reflexivity).
  - apply (@calculate_growth_fits arena 0 0);
      unfold in_usize; split; (lia || reflexivity).
Defined.

Lemma calculate_growth_past_half_witness :
  @calculate_growth arena (2 ^ 63) 0 = 2 ^ 63 + 0.
Proof.
  apply (@calculate_growth_past_half arena (2 ^ 63) 0).
  - cbn. lia.
  - lia.
  - unfold in_usize. split; [lia | reflexivity].
Defined.

Lemma is_power_of_two_iff_witness :
  @is_power_of_two arena 64 = true /\ exists k, 0 <= k /\ 4096 = 2 ^ k.
Proof.
  assert (@in_usize arena 64) as H64
    by (unfold in_usize; split; [lia | reflexivity]).
  assert (@in_usize arena 4096) as H4096
    by (unfold in_usize; split; [lia | reflexivity]).
  split.
  - apply (proj2 (@is_power_of_two_iff arena 64 H64)).
    exists 6. split; [lia | reflexivity].
  - apply (proj1 (@is_power_of_two_iff arena 4096 H4096)).
    reflexivity.
Defined.

Lemma next_power_of_two_spec_witness :
  @next_power_of_two arena true 37 = 2 ^ Z.log2_up 37 /\
  37 <= @next_power_of_two arena true 37 < 2 * 37.
Proof.
  apply (@next_power_of_two_spec arena true 37).
  - cbn. lia.
  - cbn. lia.
Defined.




Lemma swap_bytes_exchanges_witness :
  swap_bytes 100 200 2 sample_bytes (100 + 1) = sample_bytes (200 + 1) /\
  swap_bytes 100 200 2 sample_bytes (200 + 1) = sample_bytes (100 + 1).
Proof.
  apply (swap_bytes_exchanges 100 200 2 1 sample_bytes); lia.
Defined.

Lemma swap_bytes_frame_witness :
  swap_bytes 100 101 2 sample_bytes 200 = sample_bytes 200.
Proof.
  apply (swap_bytes_frame 100 101 2 sample_bytes 200); lia.
Defined.

Lemma swap_bytes_twice_witness :
  swap_bytes 100 200 2 (swap_bytes 100 200 2 sample_bytes) 101 =
  sample_bytes 101.
Proof.
  apply (swap_bytes_twice 100 200 2 sample_bytes 101). lia.
Defined.

(** Two regions that share a byte: the bytes 1, 2, 0 at 100, 101, 102 end
    as 2, 0, 1, which is not an exchange of the two regions. *)
Example swap_bytes_overlapping :
  map (swap_bytes 100 101 2 sample_bytes) [100; 101; 102] =
  [Byte.x02; Byte.x00; Byte.x01].
Proof. reflexivity. Qed.

End MoreRuns.
